(** * wabbit: the reconnecting AMQP connection wrapper and the test server's Delivery

    Shallow embedding of [amqp.Conn] (NotifyClose, AutoRedial and the dial
    closures) and of [server.Delivery].

    Goroutines are embedded as sequential programs in a small monad that
    threads the fields of the [Conn] the methods are invoked on together with
    a store of channels, and that records every externally visible action
    (channel creation, sends, closes, sleeps, dial calls, [go] statements) in
    program order.  What a goroutine gets from its environment (the values
    of the native close stream, the value received from a channel, the
    outcomes of the dial calls) is an explicit argument. *)

From Stdlib Require Import ZArith Lia List.
From stdpp Require Import base gmap strings list.

Open Scope Z_scope.

(** ** The broker client library (github.com/rabbitmq/amqp091-go) *)

Module amqp.

(** [amqp.Error]: the native close reason. *)
Record Error := mkError {
  Code : Z;
  Reason : string;
  Server : bool;
  Recover : bool
}.

(** Identity of a live broker connection, the target of [*amqp.Connection]. *)
Definition Connection := nat.

(** Outcome of [amqp.Dial], [amqp.DialTLS] or [amqp.DialConfig]: a
    connection and a nil error, or a nil connection and an error. *)
Inductive DialResult :=
| Connected (h : Connection)
| Refused (e : string).

End amqp.

(** ** utils.Error *)

Module utils.

(** Modelled from the spec: the error value that [utils.NewError] builds;
    package utils is not among the sources at hand.  The spec describes the
    translated error by four attributes: a numeric code, a human-readable
    reason, an originator flag (server or client) and a recoverable flag. *)
Record Error := mkError {
  Code : Z;
  Reason : string;
  Server : bool;
  Recover : bool
}.

(** Modelled from the spec: [utils.NewError], missing with its package.  The
    spec requires the translation to keep the four broker-supplied fields
    verbatim. *)
Definition NewError (code : Z) (reason : string) (server recover : bool) : Error :=
  {| Code := code; Reason := reason; Server := server; Recover := recover |}.

End utils.

Module wabbit.

(** Modelled from the spec: the interface [wabbit.Error], declared outside
    the sources at hand.  The spec has it either absent (nil, the sentinel of
    a graceful close) or a translated error; the connection wrapper stores
    nothing in it but nil and the result of [utils.NewError]. *)
Definition Error := option utils.Error.

End wabbit.

(** ** Channels, tasks and actions *)

(** Identity of a Go channel.  An identity that the store does not know is
    the nil channel. *)
Definition chan := nat.

Record ChanState := mkChan {
  chan_cap : nat;
  chan_closed : bool
}.

(** The two goroutines the wrapper starts. *)
Inductive Task :=
| NotifyClose_listener (amqpErr c : chan)
| AutoRedial_watcher (errChan outChan done : chan).

Inductive Action :=
| MakeChan (ch : chan) (capacity : nat)
| Subscribe (h : amqp.Connection) (ch : chan)
| Go (t : Task)
| SendErr (ch : chan) (v : wabbit.Error)
| SendBool (ch : chan) (b : bool)
| CloseChan (ch : chan)
| Sleep (d : Z)
| CallDial (r : amqp.DialResult).

(** ** State: the [Conn] and the channel store *)

Record State := mkState {
  Connection : option amqp.Connection;   (* conn.Connection, None is nil *)
  attempts : Z;                          (* conn.attempts, a uint8 *)
  chans : gmap chan ChanState
}.

Definition with_Connection (c : option amqp.Connection) (s : State) : State :=
  {| Connection := c; attempts := attempts s; chans := chans s |}.

Definition with_attempts (a : Z) (s : State) : State :=
  {| Connection := Connection s; attempts := a; chans := chans s |}.

Definition with_chans (cs : gmap chan ChanState) (s : State) : State :=
  {| Connection := Connection s; attempts := attempts s; chans := cs |}.

(** ** The monad *)

Inductive Outcome (A : Type) :=
| Done (a : A)       (* the code ran to its end *)
| Blocked            (* the goroutine waits for ever (or for an input not yet there) *)
| Panic.             (* run-time panic *)
Arguments Done {A} a.
Arguments Blocked {A}.
Arguments Panic {A}.

Record Run (A : Type) := mkRun {
  res : Outcome A;
  post : State;
  out : list Action
}.
Arguments mkRun {A} res post out.
Arguments res {A} r.
Arguments post {A} r.
Arguments out {A} r.

Definition M (A : Type) := State -> Run A.

Definition ret {A} (a : A) : M A := fun s => mkRun (Done a) s [].

(** [after acts r]: the run [r] preceded by the actions [acts]. *)
Definition after {A} (acts : list Action) (r : Run A) : Run A :=
  mkRun (res r) (post r) (acts ++ out r).

Definition bind {A B} (m : M A) (f : A -> M B) : M B :=
  fun s =>
    let r := m s in
    match res r with
    | Done a => after (out r) (f a (post r))
    | Blocked => mkRun Blocked (post r) (out r)
    | Panic => mkRun Panic (post r) (out r)
    end.

Notation "x <- m ;; k" := (bind m (fun x => k))
  (at level 100, m at next level, right associativity).
Notation "m ;; k" := (bind m (fun _ => k))
  (at level 100, right associativity).

Definition block {A} : M A := fun s => mkRun Blocked s [].
Definition panic {A} : M A := fun s => mkRun Panic s [].
Definition emit (a : Action) : M unit := fun s => mkRun (Done tt) s [a].
Definition gets {A} (f : State -> A) : M A := fun s => mkRun (Done (f s)) s [].
Definition modify (f : State -> State) : M unit := fun s => mkRun (Done tt) (f s) [].

(** ** Channel primitives *)

(** [make(chan T, n)] *)
Definition make_chan (n : nat) : M chan :=
  cs <- gets chans ;;
  let ch := fresh (dom cs) in
  modify (with_chans (<[ch := mkChan n false]> cs)) ;;
  emit (MakeChan ch n) ;;
  ret ch.

(** [cap(c)]; the capacity of a nil channel is 0. *)
Definition cap (c : chan) : M nat :=
  cs <- gets chans ;;
  ret (match cs !! c with Some st => chan_cap st | None => 0%nat end).

(** A send: it blocks for ever on a nil channel and panics on a closed one.
    On an open channel the value is handed over: the reader (or the free
    buffer slot) is the environment's part, and a send that no reader ever
    takes is outside this embedding. *)
Definition send (c : chan) (a : Action) : M unit :=
  cs <- gets chans ;;
  match cs !! c with
  | None => block
  | Some st => if chan_closed st then panic else emit a
  end.

Definition send_err (c : chan) (v : wabbit.Error) : M unit := send c (SendErr c v).
Definition send_bool (c : chan) (b : bool) : M unit := send c (SendBool c b).

(** [close(c)]: panics on a nil channel and on a closed one. *)
Definition close_chan (c : chan) : M unit :=
  cs <- gets chans ;;
  match cs !! c with
  | None => panic
  | Some st =>
      if chan_closed st then panic
      else modify (with_chans (<[c := mkChan (chan_cap st) true]> cs)) ;;
           emit (CloseChan c)
  end.

(** [go f()] *)
Definition go (t : Task) : M unit := emit (Go t).

(** [time.Sleep(d)] *)
Definition time_Sleep (d : Z) : M unit := emit (Sleep d).

(** [time.Second], in nanoseconds. *)
Definition Second : Z := 1000000000.

(** ** Dialing *)

(** [&Conn{}]: every field has its zero value. *)
Definition new_Conn (cs : gmap chan ChanState) : State :=
  {| Connection := None; attempts := 0; chans := cs |}.

(** The closure that [Dial], [DialTLS] and [DialConfig] hand to [doDial]:
    [conn.Connection, err = amqp.Dial...(...)], so a failed dial stores the
    nil connection; the closure returns [err].  [r] is what the library's
    dial function returns at this call. *)
Definition dialFn (r : amqp.DialResult) : M (option string) :=
  emit (CallDial r) ;;
  match r with
  | amqp.Connected h => modify (with_Connection (Some h)) ;; ret None
  | amqp.Refused e => modify (with_Connection None) ;; ret (Some e)
  end.

(** [doDial]: [Some e] stands for the result [(nil, e)], [None] for
    [(conn, nil)]. *)
Definition doDial (r : amqp.DialResult) : M (option string) :=
  err <- dialFn r ;;
  match err with
  | Some e => ret (Some e)
  | None => ret None
  end.

Definition Dial (r : amqp.DialResult) (cs : gmap chan ChanState) : Run (option string) :=
  doDial r (new_Conn cs).

(** ** NotifyClose *)

(** [conn.Connection.NotifyClose(ch)] of the library: registers [ch] as a
    listener of the close event and returns it.  On a nil connection the
    call dereferences nil. *)
Definition Connection_NotifyClose (ch : chan) : M chan :=
  c <- gets Connection ;;
  match c with
  | None => panic
  | Some h => emit (Subscribe h ch) ;; ret ch
  end.

(** The translation of one native close event (lines 81 to 91). *)
Definition translate (err : option amqp.Error) : wabbit.Error :=
  match err with
  | Some e =>
      Some (utils.NewError (amqp.Code e) (amqp.Reason e) (amqp.Server e) (amqp.Recover e))
  | None => None
  end.

(** [for err := range amqpErr { ...; c <- ne }] over the events that the
    native stream delivers. *)
Fixpoint listener_loop (c : chan) (events : list (option amqp.Error)) : M unit :=
  match events with
  | [] => ret tt
  | err :: rest =>
      let ne := translate err in
      send_err c ne ;;
      listener_loop c rest
  end.

(** The goroutine started by [NotifyClose].  [events] are the values of the
    native stream so far, [closed] tells whether the stream has been closed
    after them; while it is open the [range] waits for the next value. *)
Definition NotifyClose_goroutine (c : chan) (events : list (option amqp.Error))
    (closed : bool) : M unit :=
  listener_loop c events ;;
  if closed then close_chan c else block.

Definition NotifyClose (c : chan) : M chan :=
  n <- cap c ;;
  ch <- make_chan n ;;
  amqpErr <- Connection_NotifyClose ch ;;
  go (NotifyClose_listener amqpErr c) ;;
  ret c.

(** What the first receive from [c] yields when [c] has a single reader and
    the listener of [NotifyClose] is its only writer: the first translated
    event, the zero value (nil) once [c] is closed without one, nothing
    yet otherwise. *)
Definition first_received (events : list (option amqp.Error)) (closed : bool)
    : option wabbit.Error :=
  match events with
  | err :: _ => Some (translate err)
  | [] => if closed then Some None else None
  end.

(** ** AutoRedial *)

Definition AutoRedial (outChan done : chan) : M unit :=
  errChan2 <- make_chan 0 ;;
  errChan <- NotifyClose errChan2 ;;
  go (AutoRedial_watcher errChan outChan done).

(** [conn.attempts++] on a uint8. *)
Definition incr_attempts : M unit :=
  modify (fun s => with_attempts ((attempts s + 1) mod 256) s).

(** The code from the label [attempts:] on (lines 127 to 147).  [dials] are
    the outcomes of the calls of the library's dial function, one per call
    of [conn.dialFn]; when they run out the goroutine is waiting in
    [conn.dialFn()]. *)
Fixpoint attempts_loop (outChan done : chan) (err : wabbit.Error)
    (dials : list amqp.DialResult) : M unit :=
  send_err outChan err ;;
  a <- gets attempts ;;
  (if 60 <? a then modify (with_attempts 0) else ret tt) ;;
  a <- gets attempts ;;
  time_Sleep (a * Second) ;;
  match dials with
  | [] => block
  | r :: rest =>
      connErr <- dialFn r ;;
      match connErr with
      | Some _ =>
          incr_attempts ;;
          attempts_loop outChan done err rest
      | None =>
          AutoRedial outChan done ;;
          send_bool done true ;;
          ret tt
      end
  end.

(** The goroutine started by [AutoRedial].  [received] is what [<-errChan]
    yields: [None] while nothing has arrived, [Some v] for the value [v]
    (nil for a closed channel). *)
Definition AutoRedial_goroutine (outChan done : chan)
    (received : option wabbit.Error) (dials : list amqp.DialResult) : M unit :=
  match received with
  | None => block
  | Some amqpErr =>
      let err := amqpErr in
      match amqpErr with
      | None => ret tt
      | Some _ => attempts_loop outChan done err dials
      end
  end.

(** ** Reading a trace *)

Definition sleeps (t : list Action) : list Z :=
  omap (fun a => match a with Sleep d => Some d | _ => None end) t.

Definition sent_on (c : chan) (t : list Action) : list wabbit.Error :=
  omap (fun a => match a with
                 | SendErr c' v => if decide (c' = c) then Some v else None
                 | _ => None
                 end) t.

Definition signals_on (c : chan) (t : list Action) : list bool :=
  omap (fun a => match a with
                 | SendBool c' b => if decide (c' = c) then Some b else None
                 | _ => None
                 end) t.

Definition dial_calls (t : list Action) : list amqp.DialResult :=
  omap (fun a => match a with CallDial r => Some r | _ => None end) t.

Definition spawned (t : list Action) : list Task :=
  omap (fun a => match a with Go g => Some g | _ => None end) t.

(** A state for examples: a dialed connection, the caller's unbuffered
    [outChan] (channel 0) and [done] (channel 1). *)
Definition demo_chans : gmap chan ChanState :=
  <[1%nat := mkChan 0 false]> (<[0%nat := mkChan 0 false]> ∅).

Definition demo : State := post (Dial (amqp.Connected 7%nat) demo_chans).

Definition e320 : utils.Error := utils.NewError 320 "CONNECTION_FORCED" true false.

Definition refused (k : nat) : list amqp.DialResult :=
  repeat (amqp.Refused "dial tcp: connection refused") k.

(** ** The test server's Delivery (amqptest/server/delivery.go) *)

Module server.
Section Delivery.

(** [wabbit.Option] (the headers) and [*Channel] are declared elsewhere. *)
Variable Option : Type.
Variable Channel : Type.

Record Delivery := mkDelivery {
  data : list Byte.byte;
  headers : Option;
  tag : Z;                    (* uint64 *)
  consumerTag : string;
  originalRoute : string;
  messageId : string;
  channel : Channel;
  contentType : string
}.

(** The composite literal names six fields; [consumerTag] and
    [originalRoute] keep the zero value of [string]. *)
Definition NewDelivery (ch : Channel) (data : list Byte.byte) (tag : Z)
    (messageId : string) (hdrs : Option) (contentType : string) : Delivery :=
  {| data := data;
     headers := hdrs;
     channel := ch;
     tag := tag;
     messageId := messageId;
     contentType := contentType;
     consumerTag := "";
     originalRoute := "" |}.

Definition Body (d : Delivery) : list Byte.byte := data d.
Definition Headers (d : Delivery) : Option := headers d.
Definition DeliveryTag (d : Delivery) : Z := tag d.
Definition ConsumerTag (d : Delivery) : string := consumerTag d.
Definition MessageId (d : Delivery) : string := messageId d.
Definition ContentType (d : Delivery) : string := contentType d.

(** The methods [Ack] and [Nack] of the channel are declared elsewhere;
    [Reply] is whatever such a call does and returns. *)
Variable Reply : Type.
Variable Channel_Ack : Channel -> Z -> bool -> Reply.
Variable Channel_Nack : Channel -> Z -> bool -> bool -> Reply.

Definition Ack (d : Delivery) (multiple : bool) : Reply :=
  Channel_Ack (channel d) (tag d) multiple.

Definition Nack (d : Delivery) (multiple requeue : bool) : Reply :=
  Channel_Nack (channel d) (tag d) multiple requeue.

Definition Reject (d : Delivery) (requeue : bool) : Reply :=
  Channel_Nack (channel d) (tag d) false requeue.

End Delivery.
End server.

(** ** Definitions used in the statements *)

(** The counter the backoff is computed from (line 130). *)
Definition reset_above_60 (a : Z) : Z := if 60 <? a then 0 else a.

(** [cap(c)] as a function of the state. *)
Definition cap_of (s : State) (c : chan) : nat :=
  match chans s !! c with Some st => chan_cap st | None => 0%nat end.

(** The [Conn] after one failed turn. *)
Definition failed_turn (s : State) : State :=
  mkState None ((reset_above_60 (attempts s) + 1) mod 256) (chans s).

Definition after_failures (s : State) (es : list string) : State :=
  fold_left (fun st _ => failed_turn st) es s.

(** The actions of a streak of failed turns that starts with the counter at [a]. *)
Fixpoint failed_turns (outChan : chan) (err : wabbit.Error) (a : Z) (es : list string)
    : list Action :=
  match es with
  | [] => []
  | e :: es' =>
      [SendErr outChan err; Sleep (reset_above_60 a * Second); CallDial (amqp.Refused e)]
      ++ failed_turns outChan err ((reset_above_60 a + 1) mod 256) es'
  end.

(** The counter after [n] failed turns. *)
Fixpoint counter_after (a : Z) (n : nat) : Z :=
  match n with
  | O => a
  | S n' => counter_after ((reset_above_60 a + 1) mod 256) n'
  end.

(** The waits of [n] turns. *)
Fixpoint waits (a : Z) (n : nat) : list Z :=
  match n with
  | O => []
  | S n' => reset_above_60 a * Second :: waits ((reset_above_60 a + 1) mod 256) n'
  end.

(** An action that neither sends on a channel of the caller nor dials. *)
Definition quiet (a : Action) : Prop :=
  match a with
  | SendErr _ _ | SendBool _ _ | CallDial _ => False
  | _ => True
  end.

(** An action that closes no channel. *)
Definition closes_nothing (a : Action) : Prop :=
  match a with
  | CloseChan _ => False
  | _ => True
  end.

(** The shape of the traces of the retry loop. *)

Section LoopTrace.

Variables (outChan done : chan) (err : wabbit.Error).

(** [loop_trace a t]: [t] is built from turns of the loop that start with
    the counter at [a]. *)
Inductive loop_trace : Z -> list Action -> Prop :=
| trace_stuck a :
    loop_trace a []
| trace_waiting a :
    loop_trace a [SendErr outChan err; Sleep (reset_above_60 a * Second)]
| trace_refused a e t :
    loop_trace ((reset_above_60 a + 1) mod 256) t ->
    loop_trace a
      ([SendErr outChan err; Sleep (reset_above_60 a * Second);
        CallDial (amqp.Refused e)] ++ t)
| trace_connected a h errChan amqpErr tail :
    tail = [] \/ tail = [SendBool done true] ->
    loop_trace a
      ([SendErr outChan err; Sleep (reset_above_60 a * Second);
        CallDial (amqp.Connected h);
        MakeChan errChan 0; MakeChan amqpErr 0; Subscribe h amqpErr;
        Go (NotifyClose_listener amqpErr errChan);
        Go (AutoRedial_watcher errChan outChan done)] ++ tail).


End LoopTrace.

(** * Properties *)

(** ** The monad and the trace readers *)

Lemma after_nil {A} (r : Run A) : after [] r = r.
Proof. by destruct r. Qed.

Lemma after_after {A} (l1 l2 : list Action) (r : Run A) :
  after l1 (after l2 r) = after (l1 ++ l2) r.
Proof. unfold after; simpl. by rewrite app_assoc. Qed.

(** How [bind] runs each primitive. *)

Lemma bind_ret {A B} (a : A) (k : A -> M B) s : (x <- ret a ;; k x) s = k a s.
Proof. unfold bind, ret; simpl. apply after_nil. Qed.

Lemma bind_gets {A B} (f : State -> A) (k : A -> M B) s :
  (x <- gets f ;; k x) s = k (f s) s.
Proof. unfold bind, gets; simpl. apply after_nil. Qed.

Lemma bind_modify {B} (f : State -> State) (k : unit -> M B) s :
  (x <- modify f ;; k x) s = k tt (f s).
Proof. unfold bind, modify; simpl. apply after_nil. Qed.

Lemma bind_emit {B} (a : Action) (k : unit -> M B) s :
  (x <- emit a ;; k x) s = after [a] (k tt s).
Proof. reflexivity. Qed.

Lemma bind_block {A B} (k : A -> M B) s : (x <- block ;; k x) s = mkRun Blocked s [].
Proof. reflexivity. Qed.

Lemma bind_panic {A B} (k : A -> M B) s : (x <- panic ;; k x) s = mkRun Panic s [].
Proof. reflexivity. Qed.

Lemma bind_assoc {A B C} (m : M A) (f : A -> M B) (g : B -> M C) s :
  (y <- (x <- m ;; f x) ;; g y) s = (x <- m ;; y <- f x ;; g y) s.
Proof.
  unfold bind. destruct (m s) as [[a| |] s1 o1]; simpl; try reflexivity.
  destruct (f a s1) as [[b| |] s2 o2]; simpl; try reflexivity.
  unfold after; simpl. by rewrite app_assoc.
Qed.

Lemma bind_done {A B} (m : M A) (k : A -> M B) s a s1 o :
  m s = mkRun (Done a) s1 o -> (x <- m ;; k x) s = after o (k a s1).
Proof. intros H. unfold bind. by rewrite H. Qed.

Lemma unit_ret_r (m : M unit) s : (m ;; ret tt) s = m s.
Proof.
  unfold bind, ret, after. destruct (m s) as [[[]| |] s1 o1]; simpl; try reflexivity.
  by rewrite app_nil_r.
Qed.

Ltac run_step :=
  first [ rewrite bind_assoc | rewrite bind_ret | rewrite bind_gets
        | rewrite bind_modify | rewrite bind_emit | rewrite bind_block
        | rewrite bind_panic | rewrite after_after | rewrite after_nil ];
  cbv beta.

Ltac run := repeat run_step.

(** Sends and closes, by the state of the channel. *)

Lemma send_open {B} c a (k : unit -> M B) s n :
  chans s !! c = Some (mkChan n false) ->
  (x <- send c a ;; k x) s = after [a] (k tt s).
Proof. intros H. unfold send. run. rewrite H; simpl. by run. Qed.

Lemma send_nil {B} c a (k : unit -> M B) s :
  chans s !! c = None -> (x <- send c a ;; k x) s = mkRun Blocked s [].
Proof. intros H. unfold send. run. rewrite H. by run. Qed.

Lemma send_closed {B} c a (k : unit -> M B) s n :
  chans s !! c = Some (mkChan n true) -> (x <- send c a ;; k x) s = mkRun Panic s [].
Proof. intros H. unfold send. run. rewrite H; simpl. by run. Qed.

Lemma sleeps_app t1 t2 : sleeps (t1 ++ t2) = sleeps t1 ++ sleeps t2.
Proof. apply omap_app. Qed.

Lemma sent_on_app c t1 t2 : sent_on c (t1 ++ t2) = sent_on c t1 ++ sent_on c t2.
Proof. apply omap_app. Qed.

Lemma signals_on_app c t1 t2 :
  signals_on c (t1 ++ t2) = signals_on c t1 ++ signals_on c t2.
Proof. apply omap_app. Qed.

Lemma dial_calls_app t1 t2 : dial_calls (t1 ++ t2) = dial_calls t1 ++ dial_calls t2.
Proof. apply omap_app. Qed.

Lemma spawned_app t1 t2 : spawned (t1 ++ t2) = spawned t1 ++ spawned t2.
Proof. apply omap_app. Qed.

(** ** One turn of the retry loop *)


Lemma attempts_loop_eq outChan done err dials :
  attempts_loop outChan done err dials =
  (send_err outChan err ;;
   a <- gets attempts ;;
   (if 60 <? a then modify (with_attempts 0) else ret tt) ;;
   a <- gets attempts ;;
   time_Sleep (a * Second) ;;
   match dials with
   | [] => block
   | r :: rest =>
       connErr <- dialFn r ;;
       match connErr with
       | Some _ => incr_attempts ;; attempts_loop outChan done err rest
       | None => AutoRedial outChan done ;; send_bool done true ;; ret tt
       end
   end).
Proof. by destruct dials. Qed.

(** The loop up to the call of [conn.dialFn], on an open [outChan]. *)
Lemma attempts_loop_head outChan done err dials s n :
  chans s !! outChan = Some (mkChan n false) ->
  attempts_loop outChan done err dials s =
    after [SendErr outChan err; Sleep (reset_above_60 (attempts s) * Second)]
      (match dials with
       | [] => block
       | r :: rest =>
           connErr <- dialFn r ;;
           match connErr with
           | Some _ => incr_attempts ;; attempts_loop outChan done err rest
           | None => AutoRedial outChan done ;; send_bool done true ;; ret tt
           end
       end (with_attempts (reset_above_60 (attempts s)) s)).
Proof.
  intros H. rewrite attempts_loop_eq. unfold send_err.
  rewrite (send_open _ _ _ _ n H). run. unfold reset_above_60, time_Sleep.
  destruct s as [c a cs]; simpl. destruct (60 <? a); by run.
Qed.

Lemma attempts_loop_stuck outChan done err dials s :
  chans s !! outChan = None ->
  attempts_loop outChan done err dials s = mkRun Blocked s [].
Proof. intros H. rewrite attempts_loop_eq. unfold send_err. by rewrite send_nil. Qed.

Lemma attempts_loop_closed outChan done err dials s n :
  chans s !! outChan = Some (mkChan n true) ->
  attempts_loop outChan done err dials s = mkRun Panic s [].
Proof.
  intros H. rewrite attempts_loop_eq. unfold send_err. by rewrite (send_closed _ _ _ _ n).
Qed.

Lemma attempts_loop_waiting outChan done err s n :
  chans s !! outChan = Some (mkChan n false) ->
  attempts_loop outChan done err [] s =
    mkRun Blocked (with_attempts (reset_above_60 (attempts s)) s)
      [SendErr outChan err; Sleep (reset_above_60 (attempts s) * Second)].
Proof. intros H. by rewrite (attempts_loop_head _ _ _ _ _ n H). Qed.

Lemma attempts_loop_refused outChan done err e rest s n :
  chans s !! outChan = Some (mkChan n false) ->
  attempts_loop outChan done err (amqp.Refused e :: rest) s =
    after [SendErr outChan err; Sleep (reset_above_60 (attempts s) * Second);
           CallDial (amqp.Refused e)]
      (attempts_loop outChan done err rest
         (mkState None ((reset_above_60 (attempts s) + 1) mod 256) (chans s))).
Proof.
  intros H. rewrite (attempts_loop_head _ _ _ _ _ n H).
  unfold dialFn, incr_attempts. by run.
Qed.

(** ** NotifyClose and AutoRedial, run *)


Lemma NotifyClose_run c s h :
  Connection s = Some h ->
  NotifyClose c s =
    let ch := fresh (dom (chans s)) in
    mkRun (Done c)
      (with_chans (<[ch := mkChan (cap_of s c) false]> (chans s)) s)
      [MakeChan ch (cap_of s c); Subscribe h ch; Go (NotifyClose_listener ch c)].
Proof.
  intros H. unfold NotifyClose, cap, make_chan, Connection_NotifyClose, go. run.
  simpl. rewrite H. by run.
Qed.

Lemma NotifyClose_nil_connection c s :
  Connection s = None -> res (NotifyClose c s) = Panic.
Proof.
  intros H. unfold NotifyClose, cap, make_chan, Connection_NotifyClose, go. run.
  simpl. rewrite H. by run.
Qed.

Lemma AutoRedial_run outChan done s h :
  Connection s = Some h ->
  AutoRedial outChan done s =
    let errChan2 := fresh (dom (chans s)) in
    let cs2 := <[errChan2 := mkChan 0 false]> (chans s) in
    let amqpErr := fresh (dom cs2) in
    mkRun (Done tt)
      (with_chans (<[amqpErr := mkChan 0 false]> cs2) s)
      [MakeChan errChan2 0; MakeChan amqpErr 0; Subscribe h amqpErr;
       Go (NotifyClose_listener amqpErr errChan2);
       Go (AutoRedial_watcher errChan2 outChan done)].
Proof.
  intros H. unfold AutoRedial, make_chan at 1, go. run.
  erewrite bind_done by (by apply (NotifyClose_run _ _ h)).
  run. unfold cap_of; simpl. by rewrite lookup_insert_eq.
Qed.

Lemma AutoRedial_nil_connection outChan done s :
  Connection s = None ->
  res (AutoRedial outChan done s) = Panic /\
  exists errChan2 amqpErr,
    out (AutoRedial outChan done s) = [MakeChan errChan2 0; MakeChan amqpErr 0].
Proof.
  intros H. unfold AutoRedial, make_chan at 1, go. run.
  unfold NotifyClose, cap, make_chan, Connection_NotifyClose. run.
  simpl. rewrite H, lookup_insert_eq. run. split; [done|]. by eexists _, _.
Qed.

Lemma AutoRedial_quiet outChan done s : Forall quiet (out (AutoRedial outChan done s)).
Proof.
  destruct (Connection s) as [h|] eqn:Hc.
  - rewrite (AutoRedial_run _ _ _ h Hc). repeat constructor.
  - destruct (AutoRedial_nil_connection outChan done s Hc) as (_ & c2 & c3 & ->).
    repeat constructor.
Qed.

(** Channels the store knows are left as they are by a re-arm. *)
Lemma AutoRedial_keeps outChan done s h c st :
  Connection s = Some h ->
  chans s !! c = Some st ->
  chans (post (AutoRedial outChan done s)) !! c = Some st.
Proof.
  intros Hc H. rewrite (AutoRedial_run _ _ _ h Hc). simpl.
  assert (Hin : c ∈ dom (chans s)) by (apply elem_of_dom; eauto).
  set (c2 := fresh (dom (chans s))).
  assert (c2 ≠ c) by (intros <-; by apply (is_fresh (dom (chans s)))).
  set (cs2 := <[c2 := _]> (chans s)).
  assert (H2 : cs2 !! c = Some st) by (unfold cs2; by rewrite lookup_insert_ne).
  assert (fresh (dom cs2) ≠ c).
  { intros E. apply (is_fresh (dom cs2)). rewrite E. apply elem_of_dom; eauto. }
  by rewrite lookup_insert_ne.
Qed.

Lemma attempts_loop_connected outChan done err h rest s n m :
  chans s !! outChan = Some (mkChan n false) ->
  chans s !! done = Some (mkChan m false) ->
  attempts_loop outChan done err (amqp.Connected h :: rest) s =
    let s1 := mkState (Some h) (reset_above_60 (attempts s)) (chans s) in
    mkRun (Done tt) (post (AutoRedial outChan done s1))
      ([SendErr outChan err; Sleep (reset_above_60 (attempts s) * Second);
        CallDial (amqp.Connected h)]
       ++ out (AutoRedial outChan done s1) ++ [SendBool done true]).
Proof.
  intros Ho Hd. rewrite (attempts_loop_head _ _ _ _ _ n Ho).
  unfold dialFn. run. unfold with_Connection, with_attempts.
  cbn [Connection attempts chans]. cbv zeta.
  set (s1 := mkState _ _ _).
  assert (Hd1 : chans (post (AutoRedial outChan done s1)) !! done = Some (mkChan m false))
    by (by apply (AutoRedial_keeps _ _ _ h)).
  pose proof (AutoRedial_run outChan done s1 h eq_refl) as Hr. cbv zeta in Hr.
  destruct (AutoRedial outChan done s1) as [r1 p1 o1] eqn:E.
  injection Hr as -> Hp Ho1. cbn [post out] in *.
  erewrite bind_done by exact E.
  unfold send_bool. rewrite unit_ret_r. rewrite <- (unit_ret_r (send _ _)).
  rewrite (send_open _ _ _ _ m Hd1). run. unfold ret, after. simpl.
  by rewrite <- app_assoc.
Qed.

(** The actions of a turn that ends in a successful dial, whatever the
    state of [done]: the re-arm, then at most the signal. *)
Lemma attempts_loop_connected_out outChan done err h rest s n :
  chans s !! outChan = Some (mkChan n false) ->
  let s1 := mkState (Some h) (reset_above_60 (attempts s)) (chans s) in
  exists tail,
    (tail = [] \/ tail = [SendBool done true]) /\
    out (attempts_loop outChan done err (amqp.Connected h :: rest) s) =
      [SendErr outChan err; Sleep (reset_above_60 (attempts s) * Second);
       CallDial (amqp.Connected h)]
      ++ out (AutoRedial outChan done s1) ++ tail.
Proof.
  intros Ho s1. rewrite (attempts_loop_head _ _ _ _ _ n Ho).
  unfold dialFn. run. unfold with_Connection, with_attempts.
  cbn [Connection attempts chans]. fold s1.
  pose proof (AutoRedial_run outChan done s1 h eq_refl) as Hr. cbv zeta in Hr.
  destruct (AutoRedial outChan done s1) as [r1 p1 o1] eqn:E.
  injection Hr as -> Hp Ho1. cbn [post out] in *.
  erewrite bind_done by exact E.
  unfold send_bool. rewrite unit_ret_r. rewrite <- (unit_ret_r (send _ _)).
  destruct (chans p1 !! done) as [[m [|]]|] eqn:Hd.
  - rewrite (send_closed _ _ _ _ m Hd). exists []. split; [by left|].
    simpl. by rewrite app_nil_r.
  - rewrite (send_open _ _ _ _ m Hd). run. exists [SendBool done true].
    split; [by right|]. simpl. by rewrite <- app_assoc.
  - rewrite (send_nil _ _ _ _ Hd). exists []. split; [by left|].
    simpl. by rewrite app_nil_r.
Qed.

(** ** A streak of failed dials *)


Lemma chans_after_failures s es : chans (after_failures s es) = chans s.
Proof.
  revert s. induction es as [|e es IH]; intros s; [done|].
  simpl. by rewrite IH.
Qed.

Lemma attempts_after_failures s es :
  attempts (after_failures s es) = counter_after (attempts s) (length es).
Proof.
  revert s. induction es as [|e es IH]; intros s; [done|].
  simpl. by rewrite IH.
Qed.

Lemma attempts_loop_failures outChan done err es tail s n :
  chans s !! outChan = Some (mkChan n false) ->
  attempts_loop outChan done err (map amqp.Refused es ++ tail) s =
    after (failed_turns outChan err (attempts s) es)
      (attempts_loop outChan done err tail (after_failures s es)).
Proof.
  revert s. induction es as [|e es IH]; intros s Ho.
  - simpl. by rewrite after_nil.
  - cbn [map app]. rewrite (attempts_loop_refused _ _ _ _ _ _ n Ho).
    fold (failed_turn s). rewrite (IH (failed_turn s)) by done.
    by rewrite after_after.
Qed.

Lemma sleeps_failed_turns outChan err a es :
  sleeps (failed_turns outChan err a es) = waits a (length es).
Proof.
  revert a. induction es as [|e es IH]; intros a; [done|].
  cbn [failed_turns]. rewrite sleeps_app, IH. reflexivity.
Qed.

Lemma sent_on_failed_turns outChan err a es :
  sent_on outChan (failed_turns outChan err a es) = replicate (length es) err.
Proof.
  revert a. induction es as [|e es IH]; intros a; [done|].
  cbn [failed_turns]. rewrite sent_on_app, IH. simpl.
  by rewrite decide_True.
Qed.

Lemma dial_calls_failed_turns outChan err a es :
  dial_calls (failed_turns outChan err a es) = map amqp.Refused es.
Proof.
  revert a. induction es as [|e es IH]; intros a; [done|].
  cbn [failed_turns]. rewrite dial_calls_app, IH. reflexivity.
Qed.

Lemma signals_on_failed_turns c outChan err a es :
  signals_on c (failed_turns outChan err a es) = [].
Proof.
  revert a. induction es as [|e es IH]; intros a; [done|].
  cbn [failed_turns]. rewrite signals_on_app, IH. reflexivity.
Qed.

Lemma spawned_failed_turns outChan err a es :
  spawned (failed_turns outChan err a es) = [].
Proof.
  revert a. induction es as [|e es IH]; intros a; [done|].
  cbn [failed_turns]. rewrite spawned_app, IH. reflexivity.
Qed.

(** While the counter stays within 0..61 it counts the failures. *)
Lemma counter_after_small a n :
  0 <= a -> a + Z.of_nat n <= 61 -> counter_after a n = a + Z.of_nat n.
Proof.
  revert a. induction n as [|n IH]; intros a Ha Hn; simpl counter_after.
  - lia.
  - unfold reset_above_60. destruct (Z.ltb_spec 60 a); [lia|].
    rewrite Z.mod_small by lia. rewrite IH; lia.
Qed.

Lemma waits_small a n :
  0 <= a -> a + Z.of_nat n <= 61 ->
  waits a n = map (fun i => (a + Z.of_nat i) * Second) (seq 0 n).
Proof.
  revert a. induction n as [|n IH]; intros a Ha Hn; simpl waits; [done|].
  unfold reset_above_60. destruct (Z.ltb_spec 60 a); [lia|].
  rewrite Z.mod_small by lia. rewrite IH by lia.
  cbn [seq map]. f_equal; [f_equal; lia|].
  rewrite <- seq_shift, map_map. apply map_ext. intros i. f_equal. lia.
Qed.

Lemma counter_after_uint8 a n :
  0 <= a < 256 -> 0 <= counter_after a n < 256.
Proof.
  revert a. induction n as [|n IH]; intros a Ha; simpl; [done|].
  apply IH. apply Z.mod_pos_bound. lia.
Qed.

Lemma reset_above_60_bounds a : 0 <= a -> 0 <= reset_above_60 a <= 60.
Proof. intros Ha. unfold reset_above_60. destruct (Z.ltb_spec 60 a); lia. Qed.

Lemma waits_snoc a n :
  waits a (S n) = waits a n ++ [reset_above_60 (counter_after a n) * Second].
Proof.
  revert a. induction n as [|n IH]; intros a; [done|].
  change (waits a (S (S n)))
    with (reset_above_60 a * Second :: waits ((reset_above_60 a + 1) mod 256) (S n)).
  rewrite IH. reflexivity.
Qed.

(** A streak of failures, the goroutine then waiting in [conn.dialFn()]. *)
Lemma attempts_loop_streak outChan done err es s n :
  chans s !! outChan = Some (mkChan n false) ->
  let r := attempts_loop outChan done err (map amqp.Refused es) s in
  res r = Blocked /\
  attempts (post r) = reset_above_60 (counter_after (attempts s) (length es)) /\
  chans (post r) = chans s /\
  sleeps (out r) = waits (attempts s) (S (length es)) /\
  sent_on outChan (out r) = replicate (S (length es)) err /\
  dial_calls (out r) = map amqp.Refused es.
Proof.
  intros Ho r. subst r.
  rewrite <- (app_nil_r (map amqp.Refused es)).
  rewrite (attempts_loop_failures _ _ _ _ _ _ n Ho).
  assert (Ho' : chans (after_failures s es) !! outChan = Some (mkChan n false))
    by (by rewrite chans_after_failures).
  rewrite (attempts_loop_waiting _ _ _ _ n Ho'). unfold after; cbn [res post out].
  rewrite attempts_after_failures.
  split_and!.
  - done.
  - done.
  - simpl. apply chans_after_failures.
  - rewrite sleeps_app, sleeps_failed_turns, waits_snoc. reflexivity.
  - rewrite sent_on_app, sent_on_failed_turns, replicate_S_end. f_equal.
    simpl. by rewrite decide_True.
  - rewrite dial_calls_app, dial_calls_failed_turns. simpl. by rewrite app_nil_r.
Qed.

(** ** The shape of every trace of the retry loop *)

Section LoopTraceFacts.

Variables (outChan done : chan) (err : wabbit.Error).

Lemma attempts_loop_trace dials s :
  loop_trace outChan done err (attempts s) (out (attempts_loop outChan done err dials s)).
Proof.
  revert s. induction dials as [|r rest IH]; intros s.
  - destruct (chans s !! outChan) as [[n [|]]|] eqn:Ho.
    + rewrite (attempts_loop_closed _ _ _ _ _ n Ho). constructor.
    + rewrite (attempts_loop_waiting _ _ _ _ n Ho). constructor.
    + rewrite (attempts_loop_stuck _ _ _ _ _ Ho). constructor.
  - destruct (chans s !! outChan) as [[n [|]]|] eqn:Ho.
    + rewrite (attempts_loop_closed _ _ _ _ _ n Ho). constructor.
    + destruct r as [h|e].
      * destruct (attempts_loop_connected_out outChan done err h rest s n Ho)
          as (tail & Ht & ->).
        rewrite (AutoRedial_run outChan done (mkState (Some h) _ (chans s)) h eq_refl).
        cbn [out].
        by apply (trace_connected _ _ _ _ h).
      * rewrite (attempts_loop_refused _ _ _ _ _ _ n Ho). cbn [after out].
        apply trace_refused. apply (IH (mkState _ _ _)).
    + rewrite (attempts_loop_stuck _ _ _ _ _ Ho). constructor.
Qed.


Lemma loop_trace_sleeps a t :
  0 <= a < 256 -> loop_trace outChan done err a t ->
  Forall (fun d => 0 <= d <= 60 * Second) (sleeps t).
Proof.
  intros Ha H. induction H as [a|a|a e t _ IH|a h c2 c3 tail Ht].
  - constructor.
  - pose proof (reset_above_60_bounds a). repeat constructor; unfold Second; lia.
  - pose proof (reset_above_60_bounds a).
    rewrite sleeps_app. simpl. constructor; [unfold Second; lia|].
    apply IH. apply Z.mod_pos_bound. lia.
  - pose proof (reset_above_60_bounds a).
    rewrite sleeps_app. simpl.
    assert (sleeps tail = []) as -> by (by destruct Ht as [-> | ->]).
    repeat constructor; unfold Second; lia.
Qed.

End LoopTraceFacts.

(** The two channels of a re-arm are new ones. *)
Lemma AutoRedial_fresh outChan done s h :
  Connection s = Some h ->
  exists errChan amqpErr,
    chans s !! errChan = None /\ chans s !! amqpErr = None /\ amqpErr <> errChan /\
    AutoRedial outChan done s =
      mkRun (Done tt)
        (with_chans (<[amqpErr := mkChan 0 false]> (<[errChan := mkChan 0 false]> (chans s))) s)
        [MakeChan errChan 0; MakeChan amqpErr 0; Subscribe h amqpErr;
         Go (NotifyClose_listener amqpErr errChan);
         Go (AutoRedial_watcher errChan outChan done)].
Proof.
  intros Hc. rewrite (AutoRedial_run _ _ _ h Hc). cbv zeta.
  set (c2 := fresh (dom (chans s))).
  set (cs2 := <[c2 := _]> (chans s)).
  set (c3 := fresh (dom cs2)).
  assert (H2 : c2 ∉ dom (chans s)) by apply is_fresh.
  assert (H3 : c3 ∉ dom cs2) by apply is_fresh.
  exists c2, c3. split_and!.
  - by apply not_elem_of_dom.
  - apply not_elem_of_dom. intros Hin. apply H3. unfold cs2.
    rewrite dom_insert_L. set_solver.
  - intros E. apply H3. rewrite E. unfold cs2. rewrite dom_insert_L. set_solver.
  - reflexivity.
Qed.

(** ** Dialing *)

(** A connection that has just been dialed has its counter at 0, and holds
    the connection exactly when the dial succeeded. *)
Lemma Dial_fresh r cs :
  attempts (post (Dial r cs)) = 0 /\
  chans (post (Dial r cs)) = cs /\
  match r with
  | amqp.Connected h =>
      res (Dial r cs) = Done None /\ Connection (post (Dial r cs)) = Some h
  | amqp.Refused e =>
      res (Dial r cs) = Done (Some e) /\ Connection (post (Dial r cs)) = None
  end.
Proof. by destruct r. Qed.

(** The scenario of a forced close: the error with code 320 is on outChan
    before the first dial, which is made without a wait. *)
Example forced_close_scenario :
  out (AutoRedial_goroutine 0%nat 1%nat
         (first_received [Some (amqp.mkError 320 "CONNECTION_FORCED" true false)] true)
         [] demo)
  = [SendErr 0%nat (Some e320); Sleep 0].
Proof. reflexivity. Qed.

(** ** AutoRedial: graceful close, the retry loop and the re-arm *)

(** C3: the call of AutoRedial itself only makes its channels and starts
    its goroutines; and when the first value received from the close-event
    stream is the graceful-close sentinel (nil), the goroutine of AutoRedial
    performs no action at all (so nothing is written to outChan, nothing to
    done, and the dial closure is not called), leaves the connection as it
    is, and returns. *)
Theorem C3_graceful_close_is_silent outChan done dials s :
  Forall quiet (out (AutoRedial outChan done s)) /\
  let r := AutoRedial_goroutine outChan done (Some None) dials s in
  res r = Done tt /\
  out r = [] /\
  sent_on outChan (out r) = [] /\
  signals_on done (out r) = [] /\
  dial_calls (out r) = [] /\
  post r = s.
Proof.
  split; [apply AutoRedial_quiet|].
  by cbv [AutoRedial_goroutine ret res out post].
Qed.

(** A native stream that is closed without an event, and a nil event, both
    reach the goroutine of AutoRedial as the sentinel. *)
Lemma graceful_close_received :
  first_received [] true = Some None /\
  forall rest closed, first_received (None :: rest) closed = Some None.
Proof. done. Qed.



(** C7: in every turn of the retry loop a counter above 60 is reset to 0
    before the wait is computed, and every wait the loop sleeps is between
    0 and 60 seconds. *)
Theorem C7_wait_at_most_60 outChan done err dials s :
  0 <= attempts s < 256 ->
  Forall (fun d => 0 <= d <= 60 * Second)
    (sleeps (out (attempts_loop outChan done err dials s))) /\
  (forall n, chans s !! outChan = Some (mkChan n false) -> 60 < attempts s ->
     head (sleeps (out (attempts_loop outChan done err dials s))) = Some 0 /\
     attempts (post (attempts_loop outChan done err [] s)) = 0).
Proof.
  intros Ha. split.
  - apply (loop_trace_sleeps outChan done err (attempts s)); [done|].
    apply attempts_loop_trace.
  - intros n Ho Hgt. rewrite !(attempts_loop_head _ _ _ _ _ n Ho).
    unfold reset_above_60. destruct (Z.ltb_spec 60 (attempts s)); [|lia].
    by split.
Qed.

Lemma C7_wait_at_most_60_witness :
  Forall (fun d => 0 <= d <= 60 * Second)
    (sleeps (out (attempts_loop 0%nat 1%nat (Some e320) (refused 3) (with_attempts 61 demo)))) /\
  head (sleeps (out (attempts_loop 0%nat 1%nat (Some e320) (refused 3) (with_attempts 61 demo))))
    = Some 0.
Proof.
  assert (Ha : 0 <= attempts (with_attempts 61 demo) < 256) by (simpl; lia).
  destruct (C7_wait_at_most_60 0%nat 1%nat (Some e320) (refused 3) (with_attempts 61 demo) Ha)
    as [H1 H2].
  split; [exact H1|].
  assert (Hgt : 60 < attempts (with_attempts 61 demo)) by (simpl; lia).
  exact (proj1 (H2 0%nat eq_refl Hgt)).
Defined.

(** C1: on a connection whose counter is 0, in one streak of failed dials:
    after k failures, k at most 60, the counter is k (and the waits so far
    were 0, 1, ..., k seconds); the first wait is 0; and with 62 failures
    the 61st turn waits 60 seconds, the 62nd turn finds the counter at 61,
    resets it and waits 0, so that the 62nd failure leaves the counter at 1
    and the wait that follows it is 1 second. *)
Theorem C1_attempt_counter_streak outChan done (e : utils.Error) s n :
  chans s !! outChan = Some (mkChan n false) ->
  attempts s = 0 ->
  (forall es : list string, (length es <= 60)%nat ->
     let r := AutoRedial_goroutine outChan done (Some (Some e)) (map amqp.Refused es) s in
     attempts (post r) = Z.of_nat (length es) /\
     sleeps (out r) = map (fun i => Z.of_nat i * Second) (seq 0 (S (length es)))) /\
  (forall dials,
     head (sleeps (out (AutoRedial_goroutine outChan done (Some (Some e)) dials s)))
       = Some 0) /\
  (forall es : list string, length es = 62%nat ->
     let r := AutoRedial_goroutine outChan done (Some (Some e)) (map amqp.Refused es) s in
     sleeps (out r) !! 60%nat = Some (60 * Second) /\
     attempts (after_failures s (take 61 es)) = 61 /\
     sleeps (out r) !! 61%nat = Some 0 /\
     attempts (after_failures s es) = 1 /\
     sleeps (out r) !! 62%nat = Some (1 * Second) /\
     attempts (post r) = 1).
Proof.
  intros Ho Ha. cbn [AutoRedial_goroutine]. split_and!.
  - intros es Hk.
    destruct (attempts_loop_streak outChan done (Some e) es s n Ho)
      as (_ & Hc & _ & Hs & _).
    cbv zeta. rewrite Hc, Hs, Ha.
    rewrite counter_after_small by lia.
    rewrite waits_small by lia.
    split.
    + unfold reset_above_60. destruct (Z.ltb_spec 60 (0 + Z.of_nat (length es))); lia.
    + apply map_ext. intros i. f_equal.
  - intros dials. rewrite (attempts_loop_head _ _ _ _ _ n Ho), Ha. reflexivity.
  - intros es Hk.
    destruct (attempts_loop_streak outChan done (Some e) es s n Ho)
      as (_ & Hc & _ & Hs & _).
    cbv zeta. rewrite Hc, Hs, !attempts_after_failures, Ha, Hk.
    rewrite length_take, Hk. by vm_compute.
Qed.

Lemma C1_attempt_counter_streak_witness :
  attempts (post (AutoRedial_goroutine 0%nat 1%nat (Some (Some e320))
                    (map amqp.Refused ["a"; "b"; "c"]) demo)) = 3 /\
  head (sleeps (out (AutoRedial_goroutine 0%nat 1%nat (Some (Some e320)) [] demo)))
    = Some 0 /\
  sleeps (out (AutoRedial_goroutine 0%nat 1%nat (Some (Some e320))
                 (map amqp.Refused (replicate 62 "refused")) demo)) !! 62%nat
    = Some (1 * Second).
Proof.
  destruct (C1_attempt_counter_streak 0%nat 1%nat e320 demo 0%nat eq_refl eq_refl)
    as (H1 & H2 & H3).
  split_and!.
  - apply (H1 ["a"; "b"; "c"]). simpl. lia.
  - apply H2.
  - apply (H3 (replicate 62 "refused")). reflexivity.
Defined.

(** C5: when a dial succeeds, the goroutine first calls AutoRedial again
    with the same outChan and done (two new channels, a subscription on the
    new connection, the listener and a new watcher are started), then sends
    true on done, once in the whole cycle, and returns; the new watcher
    reports a later unexpected close on outChan. *)
Theorem C5_success_rearms_then_signals outChan done err (es : list string) h rest s n m :
  chans s !! outChan = Some (mkChan n false) ->
  chans s !! done = Some (mkChan m false) ->
  let r := attempts_loop outChan done err
             (map amqp.Refused es ++ amqp.Connected h :: rest) s in
  exists pre errChan amqpErr,
    out r = pre ++ [CallDial (amqp.Connected h);
                    MakeChan errChan 0; MakeChan amqpErr 0; Subscribe h amqpErr;
                    Go (NotifyClose_listener amqpErr errChan);
                    Go (AutoRedial_watcher errChan outChan done);
                    SendBool done true] /\
    spawned pre = [] /\
    signals_on done (out r) = [true] /\
    res r = Done tt /\
    Connection (post r) = Some h /\
    chans s !! errChan = None /\
    chans (post r) !! errChan = Some (mkChan 0 false) /\
    (forall e' dials',
       head (out (AutoRedial_goroutine outChan done (Some (Some e')) dials' (post r)))
         = Some (SendErr outChan (Some e'))).
Proof.
  intros Ho Hd r. subst r.
  rewrite (attempts_loop_failures _ _ _ _ _ _ n Ho).
  assert (Ho' : chans (after_failures s es) !! outChan = Some (mkChan n false))
    by (by rewrite chans_after_failures).
  assert (Hd' : chans (after_failures s es) !! done = Some (mkChan m false))
    by (by rewrite chans_after_failures).
  rewrite (attempts_loop_connected _ _ _ _ _ _ n m Ho' Hd'). cbv zeta.
  set (a := reset_above_60 (attempts (after_failures s es))).
  rewrite chans_after_failures.
  set (s1 := mkState (Some h) a (chans s)).
  assert (Ho1 : chans (post (AutoRedial outChan done s1)) !! outChan = Some (mkChan n false))
    by (by apply (AutoRedial_keeps _ _ _ h)).
  destruct (AutoRedial_fresh outChan done s1 h eq_refl)
    as (errChan & amqpErr & H2 & H3 & Hne & Hr).
  rewrite Hr in Ho1 |- *. unfold after. cbn [res post out] in Ho1 |- *.
  exists (failed_turns outChan err (attempts s) es ++ [SendErr outChan err; Sleep (a * Second)]),
    errChan, amqpErr.
  split_and!.
  - rewrite <- !app_assoc. reflexivity.
  - rewrite spawned_app, spawned_failed_turns. reflexivity.
  - rewrite signals_on_app, signals_on_failed_turns. simpl. by rewrite decide_True.
  - reflexivity.
  - reflexivity.
  - exact H2.
  - simpl. rewrite lookup_insert_ne by done. by rewrite lookup_insert_eq.
  - intros e' dials'. cbn [AutoRedial_goroutine].
    by rewrite (attempts_loop_head _ _ _ _ _ n Ho1).
Qed.

Lemma C5_success_rearms_then_signals_witness :
  signals_on 1%nat
    (out (attempts_loop 0%nat 1%nat (Some e320) (refused 2 ++ [amqp.Connected 8%nat]) demo))
  = [true] /\
  res (attempts_loop 0%nat 1%nat (Some e320) (refused 2 ++ [amqp.Connected 8%nat]) demo)
  = Done tt.
Proof.
  destruct (C5_success_rearms_then_signals 0%nat 1%nat (Some e320)
              ["dial tcp: connection refused"; "dial tcp: connection refused"]
              8%nat [] demo 0%nat 0%nat eq_refl eq_refl)
    as (pre & errChan & amqpErr & _ & _ & Hs & Hres & _).
  split; [exact Hs | exact Hres].
Defined.

(** A streak of failures ended by a successful dial. *)
Lemma attempts_loop_cycle outChan done err (es : list string) h rest s n m :
  chans s !! outChan = Some (mkChan n false) ->
  chans s !! done = Some (mkChan m false) ->
  let r := attempts_loop outChan done err
             (map amqp.Refused es ++ amqp.Connected h :: rest) s in
  res r = Done tt /\
  attempts (post r) = reset_above_60 (counter_after (attempts s) (length es)) /\
  Connection (post r) = Some h /\
  chans (post r) !! outChan = Some (mkChan n false) /\
  chans (post r) !! done = Some (mkChan m false) /\
  sleeps (out r) = waits (attempts s) (S (length es)) /\
  sent_on outChan (out r) = replicate (S (length es)) err /\
  dial_calls (out r) = map amqp.Refused es ++ [amqp.Connected h] /\
  signals_on done (out r) = [true] /\
  last (out r) = Some (SendBool done true).
Proof.
  intros Ho Hd r. subst r.
  rewrite (attempts_loop_failures _ _ _ _ _ _ n Ho).
  assert (Ho' : chans (after_failures s es) !! outChan = Some (mkChan n false))
    by (by rewrite chans_after_failures).
  assert (Hd' : chans (after_failures s es) !! done = Some (mkChan m false))
    by (by rewrite chans_after_failures).
  rewrite (attempts_loop_connected _ _ _ _ _ _ n m Ho' Hd'). cbv zeta.
  rewrite attempts_after_failures.
  set (a := reset_above_60 (counter_after (attempts s) (length es))).
  set (s1 := mkState (Some h) a (chans (after_failures s es))).
  assert (Ho1 : chans (post (AutoRedial outChan done s1)) !! outChan = Some (mkChan n false))
    by (by apply (AutoRedial_keeps _ _ _ h)).
  assert (Hd1 : chans (post (AutoRedial outChan done s1)) !! done = Some (mkChan m false))
    by (by apply (AutoRedial_keeps _ _ _ h)).
  destruct (AutoRedial_fresh outChan done s1 h eq_refl)
    as (errChan & amqpErr & _ & _ & _ & Hr).
  rewrite Hr in Ho1, Hd1 |- *. unfold after. cbn [res post out] in Ho1, Hd1 |- *.
  split_and!; try done.
  - rewrite sleeps_app, sleeps_failed_turns, waits_snoc. reflexivity.
  - rewrite sent_on_app, sent_on_failed_turns, replicate_S_end. f_equal.
    simpl. by rewrite decide_True.
  - rewrite dial_calls_app, dial_calls_failed_turns. reflexivity.
  - rewrite signals_on_app, signals_on_failed_turns. simpl. by rewrite decide_True.
  - rewrite last_app. reflexivity.
Qed.




(** C9, as the code has it: the code after a successful dial does not touch
    the counter.  When a streak of k failed dials starts with the counter
    at a and a + k is at most 60, the counter is a + k after the successful
    reconnect, and the first wait of the next streak, run by the re-armed
    watcher, is a + k seconds: k seconds on a connection whose counter was
    0. *)
Theorem C9_counter_carried_over outChan done (e : utils.Error)
    (es : list string) h rest s n m :
  chans s !! outChan = Some (mkChan n false) ->
  chans s !! done = Some (mkChan m false) ->
  0 <= attempts s ->
  attempts s + Z.of_nat (length es) <= 60 ->
  let r := AutoRedial_goroutine outChan done (Some (Some e))
             (map amqp.Refused es ++ amqp.Connected h :: rest) s in
  res r = Done tt /\
  attempts (post r) = attempts s + Z.of_nat (length es) /\
  attempts (post r) = attempts (after_failures s es) /\
  forall (e' : utils.Error) dials',
    head (sleeps (out (AutoRedial_goroutine outChan done (Some (Some e')) dials' (post r))))
      = Some ((attempts s + Z.of_nat (length es)) * Second).
Proof.
  intros Ho Hd Ha Hk. cbn [AutoRedial_goroutine].
  destruct (attempts_loop_cycle outChan done (Some e) es h rest s n m Ho Hd)
    as (Hres & Hc & _ & Ho1 & _).
  cbv zeta. rewrite counter_after_small in Hc by lia.
  assert (Hr : reset_above_60 (attempts s + Z.of_nat (length es))
               = attempts s + Z.of_nat (length es)).
  { unfold reset_above_60.
    destruct (Z.ltb_spec 60 (attempts s + Z.of_nat (length es))); lia. }
  rewrite Hr in Hc. split_and!.
  - exact Hres.
  - exact Hc.
  - rewrite attempts_after_failures, counter_after_small by lia. exact Hc.
  - intros e' dials'. rewrite (attempts_loop_head _ _ _ _ _ n Ho1), Hc, Hr.
    reflexivity.
Qed.

Lemma C9_counter_carried_over_witness :
  head (sleeps (out (AutoRedial_goroutine 0%nat 1%nat (Some (Some e320)) (refused 1)
    (post (AutoRedial_goroutine 0%nat 1%nat (Some (Some e320))
             (map amqp.Refused ["a"; "b"; "c"] ++ [amqp.Connected 8%nat]) demo)))))
  = Some (3 * Second).
Proof.
  assert (H0 : 0 <= attempts demo) by (simpl; lia).
  assert (H1 : attempts demo + Z.of_nat (length ["a"; "b"; "c"]) <= 60) by (simpl; lia).
  exact (proj2 (proj2 (proj2
    (C9_counter_carried_over 0%nat 1%nat e320 ["a"; "b"; "c"] 8%nat [] demo
       0%nat 0%nat eq_refl eq_refl H0 H1))) e320 (refused 1)).
Defined.

(** C9 as stated fails for k = 61: the turn that makes the successful dial
    finds the counter at 61 and resets it, so the counter is 0 after the
    reconnect and the first wait of the next streak is 0, not 61 seconds. *)
Lemma C9_counterexample :
  let r := AutoRedial_goroutine 0%nat 1%nat (Some (Some e320))
             (refused 61 ++ [amqp.Connected 8%nat]) demo in
  attempts demo = 0 /\
  dial_calls (out r) = refused 61 ++ [amqp.Connected 8%nat] /\
  res r = Done tt /\
  attempts (post r) = 0 /\
  head (sleeps (out (AutoRedial_goroutine 0%nat 1%nat (Some (Some e320)) (refused 1) (post r))))
    = Some 0 /\
  Some 0 <> Some (61 * Second).
Proof. vm_compute. by split_and!. Qed.

(** ** NotifyClose: the translation and the listener *)

Lemma listener_loop_open c events s n :
  chans s !! c = Some (mkChan n false) ->
  listener_loop c events s =
    mkRun (Done tt) s (map (fun ev => SendErr c (translate ev)) events).
Proof.
  intros Hc. induction events as [|ev rest IH]; [done|].
  cbn [listener_loop map]. unfold send_err.
  rewrite (send_open _ _ _ _ n Hc), IH. reflexivity.
Qed.

Lemma sent_on_listener c events :
  sent_on c (map (fun ev => SendErr c (translate ev)) events) = map translate events.
Proof.
  induction events as [|ev rest IH]; [done|].
  simpl. rewrite decide_True by done. f_equal. exact IH.
Qed.

Lemma NotifyClose_goroutine_closed c events s n :
  chans s !! c = Some (mkChan n false) ->
  NotifyClose_goroutine c events true s =
    mkRun (Done tt) (with_chans (<[c := mkChan n true]> (chans s)) s)
      (map (fun ev => SendErr c (translate ev)) events ++ [CloseChan c]).
Proof.
  intros Hc. unfold NotifyClose_goroutine.
  erewrite bind_done by (by apply (listener_loop_open _ _ _ n)).
  unfold close_chan. run. rewrite Hc. cbn [chan_closed chan_cap]. by run.
Qed.

Lemma NotifyClose_goroutine_pending c events s n :
  chans s !! c = Some (mkChan n false) ->
  NotifyClose_goroutine c events false s =
    mkRun Blocked s (map (fun ev => SendErr c (translate ev)) events).
Proof.
  intros Hc. unfold NotifyClose_goroutine.
  erewrite bind_done by (by apply (listener_loop_open _ _ _ n)).
  unfold block, after. simpl. by rewrite app_nil_r.
Qed.

(** C6: a present native error is translated to a non-nil error with the
    same code, reason, server flag and recover flag; an absent one is
    translated to nil; and what the listener of NotifyClose sends on the
    output channel is the translation of each native event, in order. *)
Theorem C6_translation_keeps_fields :
  (forall e : amqp.Error,
     exists t, translate (Some e) = Some t /\
       utils.Code t = amqp.Code e /\ utils.Reason t = amqp.Reason e /\
       utils.Server t = amqp.Server e /\ utils.Recover t = amqp.Recover e) /\
  translate None = None /\
  (forall c events closed s n,
     chans s !! c = Some (mkChan n false) ->
     sent_on c (out (NotifyClose_goroutine c events closed s)) = map translate events).
Proof.
  split_and!.
  - intros e. eexists. split; [reflexivity|]. by split_and!.
  - reflexivity.
  - intros c events [|] s n Hc.
    + rewrite (NotifyClose_goroutine_closed _ _ _ n Hc). cbn [out].
      rewrite sent_on_app, sent_on_listener. simpl. by rewrite app_nil_r.
    + rewrite (NotifyClose_goroutine_pending _ _ _ n Hc). cbn [out].
      apply sent_on_listener.
Qed.

Lemma C6_translation_keeps_fields_witness :
  sent_on 0%nat
    (out (NotifyClose_goroutine 0%nat
            [Some (amqp.mkError 320 "CONNECTION_FORCED" true false); None] true demo))
  = [Some e320; None].
Proof.
  exact (proj2 (proj2 C6_translation_keeps_fields) 0%nat
           [Some (amqp.mkError 320 "CONNECTION_FORCED" true false); None] true demo
           0%nat eq_refl).
Defined.

(** C8: on a dialed connection NotifyClose(c) returns c itself, having only
    made the bridge channel, with the capacity of c, subscribed it to the
    native close event and started the listener: it neither sends nor
    receives nor sleeps.  When the native stream is closed the listener,
    after passing on the events, closes c. *)
Theorem C8_NotifyClose_returns_and_closes c s h :
  Connection s = Some h ->
  let r := NotifyClose c s in
  res r = Done c /\
  (exists ch,
     out r = [MakeChan ch (cap_of s c); Subscribe h ch; Go (NotifyClose_listener ch c)] /\
     chans s !! ch = None /\
     chans (post r) !! ch = Some (mkChan (cap_of s c) false)) /\
  (forall events n,
     chans s !! c = Some (mkChan n false) ->
     let g := NotifyClose_goroutine c events true (post r) in
     res g = Done tt /\
     out g = map (fun ev => SendErr c (translate ev)) events ++ [CloseChan c] /\
     chans (post g) !! c = Some (mkChan n true) /\
     chans (post (NotifyClose_goroutine c events false (post r))) !! c
       = Some (mkChan n false)).
Proof.
  intros Hc r. subst r. rewrite (NotifyClose_run _ _ h Hc). cbv zeta. cbn [res out post].
  set (ch := fresh (dom (chans s))).
  assert (Hf : chans s !! ch = None) by (apply not_elem_of_dom, is_fresh).
  split_and!.
  - reflexivity.
  - exists ch. split_and!; [done|done|]. simpl. by rewrite lookup_insert_eq.
  - intros events n Hopen.
    assert (ch <> c) by congruence.
    set (s1 := with_chans _ s).
    assert (H1 : chans s1 !! c = Some (mkChan n false))
      by (simpl; by rewrite lookup_insert_ne).
    rewrite (NotifyClose_goroutine_closed _ _ _ n H1).
    rewrite (NotifyClose_goroutine_pending _ _ _ n H1). cbn [res out post].
    split_and!; [done|done| |done].
    simpl. by rewrite lookup_insert_eq.
Qed.

Lemma C8_NotifyClose_returns_and_closes_witness :
  res (NotifyClose 0%nat demo) = Done 0%nat /\
  chans (post (NotifyClose_goroutine 0%nat [None] true (post (NotifyClose 0%nat demo))))
    !! 0%nat = Some (mkChan 0 true).
Proof.
  destruct (C8_NotifyClose_returns_and_closes 0%nat demo 7%nat eq_refl) as (H1 & _ & H3).
  split; [exact H1|].
  exact (proj1 (proj2 (proj2 (H3 [None] 0%nat eq_refl)))).
Defined.

(** ** Delivery *)

(** C10: a Delivery built by NewDelivery returns the constructor's data,
    headers, tag, message id and content type from Body, Headers,
    DeliveryTag, MessageId and ContentType, and its ConsumerTag is the
    empty string, whatever the arguments. *)
Theorem C10_NewDelivery_accessors (Option Channel : Type) (ch : Channel)
    (data : list Byte.byte) (tag : Z) (messageId : string) (hdrs : Option)
    (contentType : string) :
  let d := server.NewDelivery Option Channel ch data tag messageId hdrs contentType in
  server.Body _ _ d = data /\
  server.Headers _ _ d = hdrs /\
  server.DeliveryTag _ _ d = tag /\
  server.MessageId _ _ d = messageId /\
  server.ContentType _ _ d = contentType /\
  server.ConsumerTag _ _ d = "".
Proof. by cbv. Qed.

(** * Further properties of the connection wrapper *)

(** ** The counter and the waits in closed form *)

Lemma reset_above_60_mod a : 0 <= a <= 61 -> reset_above_60 a = a mod 61.
Proof.
  intros Ha. unfold reset_above_60. destruct (Z.ltb_spec 60 a).
  - assert (a = 61) as -> by lia. reflexivity.
  - symmetry. apply Z.mod_small. lia.
Qed.

Lemma failed_turn_counter a :
  0 <= a <= 61 ->
  (reset_above_60 a + 1) mod 256 = a mod 61 + 1 /\ 1 <= a mod 61 + 1 <= 61.
Proof.
  intros Ha. rewrite reset_above_60_mod by done.
  pose proof (Z.mod_pos_bound a 61). rewrite Z.mod_small; lia.
Qed.

Lemma counter_after_range a n :
  0 <= a <= 61 -> 0 <= counter_after a n <= 61.
Proof.
  revert a. induction n as [|n IH]; intros a Ha; simpl; [done|].
  destruct (failed_turn_counter a Ha) as [-> ?]. apply IH. lia.
Qed.

Lemma counter_after_mod a n :
  0 <= a <= 61 -> reset_above_60 (counter_after a n) = (a + Z.of_nat n) mod 61.
Proof.
  revert a. induction n as [|n IH]; intros a Ha.
  - simpl. rewrite Z.add_0_r. by apply reset_above_60_mod.
  - cbn [counter_after]. destruct (failed_turn_counter a Ha) as [-> ?].
    rewrite IH by lia.
    replace (a + Z.of_nat (S n)) with (a + (1 + Z.of_nat n)) by lia.
    rewrite <- Z.add_assoc. apply Zplus_mod_idemp_l.
Qed.

Lemma waits_mod a n :
  0 <= a <= 61 ->
  waits a n = map (fun i => ((a + Z.of_nat i) mod 61) * Second) (seq 0 n).
Proof.
  revert a. induction n as [|n IH]; intros a Ha; [done|].
  cbn [waits seq map]. destruct (failed_turn_counter a Ha) as [-> ?].
  rewrite IH by lia. f_equal.
  - rewrite reset_above_60_mod by done. by rewrite Z.add_0_r.
  - rewrite <- seq_shift, map_map. apply map_ext. intros i. f_equal.
    replace (a + Z.of_nat (S i)) with (a + (1 + Z.of_nat i)) by lia.
    rewrite <- Z.add_assoc. apply Zplus_mod_idemp_l.
Qed.

(** X1: in a streak of failed dials of any length, on a watcher that
    starts with the counter at a (0 to 60), the wait before the dial number
    i+1 is (a + i) mod 61 seconds: the waits run 0, 1, ..., 60 and start
    again at 0, with period 61; the error is sent once before each dial, and
    the goroutine is then waiting in the next dial. *)
Theorem X1_waits_have_period_61 outChan done (e : utils.Error) (es : list string) s n :
  chans s !! outChan = Some (mkChan n false) ->
  0 <= attempts s <= 60 ->
  let r := AutoRedial_goroutine outChan done (Some (Some e)) (map amqp.Refused es) s in
  res r = Blocked /\
  sleeps (out r)
    = map (fun i => ((attempts s + Z.of_nat i) mod 61) * Second) (seq 0 (S (length es))) /\
  attempts (post r) = (attempts s + Z.of_nat (length es)) mod 61 /\
  dial_calls (out r) = map amqp.Refused es /\
  sent_on outChan (out r) = replicate (S (length es)) (Some e).
Proof.
  intros Ho Ha. cbn [AutoRedial_goroutine].
  destruct (attempts_loop_streak outChan done (Some e) es s n Ho)
    as (Hres & Hc & _ & Hs & He & Hd).
  cbv zeta. rewrite Hres, Hc, Hs, He, Hd.
  rewrite counter_after_mod, waits_mod by lia. done.
Qed.

Lemma X1_waits_have_period_61_witness :
  sleeps (out (AutoRedial_goroutine 0%nat 1%nat (Some (Some e320))
                 (map amqp.Refused (replicate 124 "refused")) demo)) !! 123%nat
  = Some (1 * Second).
Proof.
  assert (Ha : 0 <= attempts demo <= 60) by (simpl; lia).
  destruct (X1_waits_have_period_61 0%nat 1%nat e320 (replicate 124 "refused") demo
              0%nat eq_refl Ha) as (_ & Hs & _).
  rewrite Hs. reflexivity.
Defined.

(** X2: a watch cycle of k failed dials and a successful one, started with
    the counter at a (0 to 60), ends with the counter at (a + k) mod 61,
    again within 0 to 60, for every k; the watcher armed by the cycle
    starts its own streak with a wait of (a + k) mod 61 seconds. *)
Theorem X2_counter_after_a_cycle outChan done (e : utils.Error)
    (es : list string) h rest s n m :
  chans s !! outChan = Some (mkChan n false) ->
  chans s !! done = Some (mkChan m false) ->
  0 <= attempts s <= 60 ->
  let r := AutoRedial_goroutine outChan done (Some (Some e))
             (map amqp.Refused es ++ amqp.Connected h :: rest) s in
  res r = Done tt /\
  attempts (post r) = (attempts s + Z.of_nat (length es)) mod 61 /\
  0 <= attempts (post r) <= 60 /\
  sleeps (out r)
    = map (fun i => ((attempts s + Z.of_nat i) mod 61) * Second) (seq 0 (S (length es))) /\
  forall (e' : utils.Error) dials',
    head (sleeps (out (AutoRedial_goroutine outChan done (Some (Some e')) dials' (post r))))
      = Some (((attempts s + Z.of_nat (length es)) mod 61) * Second).
Proof.
  intros Ho Hd Ha. cbn [AutoRedial_goroutine].
  destruct (attempts_loop_cycle outChan done (Some e) es h rest s n m Ho Hd)
    as (Hres & Hc & _ & Ho1 & _ & Hs & _).
  cbv zeta. rewrite counter_after_mod in Hc by lia.
  pose proof (Z.mod_pos_bound (attempts s + Z.of_nat (length es)) 61).
  split_and!.
  - exact Hres.
  - exact Hc.
  - lia.
  - lia.
  - rewrite Hs. apply waits_mod. lia.
  - intros e' dials'. rewrite (attempts_loop_head _ _ _ _ _ n Ho1), Hc.
    rewrite reset_above_60_mod by lia. rewrite Z.mod_mod by lia. reflexivity.
Qed.

Lemma X2_counter_after_a_cycle_witness :
  attempts (post (AutoRedial_goroutine 0%nat 1%nat (Some (Some e320))
                    (map amqp.Refused (replicate 70 "refused") ++ [amqp.Connected 8%nat])
                    demo)) = 9.
Proof.
  assert (Ha : 0 <= attempts demo <= 60) by (simpl; lia).
  destruct (X2_counter_after_a_cycle 0%nat 1%nat e320 (replicate 70 "refused") 8%nat []
              demo 0%nat 0%nat eq_refl eq_refl Ha) as (_ & Hc & _).
  rewrite Hc. reflexivity.
Defined.

(** ** What every run of the retry loop keeps *)

(** A turn with a successful dial, whatever the state of [done]. *)
Lemma attempts_loop_connected_any outChan done err h rest s n :
  chans s !! outChan = Some (mkChan n false) ->
  let s1 := mkState (Some h) (reset_above_60 (attempts s)) (chans s) in
  let r := attempts_loop outChan done err (amqp.Connected h :: rest) s in
  post r = post (AutoRedial outChan done s1) /\
  exists tail,
    out r = [SendErr outChan err; Sleep (reset_above_60 (attempts s) * Second);
             CallDial (amqp.Connected h)]
            ++ out (AutoRedial outChan done s1) ++ tail /\
    match chans (post (AutoRedial outChan done s1)) !! done with
    | Some st => if chan_closed st
                 then res r = Panic /\ tail = []
                 else res r = Done tt /\ tail = [SendBool done true]
    | None => res r = Blocked /\ tail = []
    end.
Proof.
  intros Ho s1 r. subst r. rewrite (attempts_loop_head _ _ _ _ _ n Ho).
  unfold dialFn. run. unfold with_Connection, with_attempts.
  cbn [Connection attempts chans]. fold s1.
  pose proof (AutoRedial_run outChan done s1 h eq_refl) as Hr. cbv zeta in Hr.
  destruct (AutoRedial outChan done s1) as [r1 p1 o1] eqn:E.
  injection Hr as -> Hp Ho1. cbn [post out].
  erewrite bind_done by exact E.
  unfold send_bool. rewrite unit_ret_r. rewrite <- (unit_ret_r (send _ _)).
  destruct (chans p1 !! done) as [[m [|]]|] eqn:Hd; cbn [chan_closed].
  - rewrite (send_closed _ _ _ _ m Hd). split; [done|]. exists [].
    split; [|done]. simpl. by rewrite app_nil_r.
  - rewrite (send_open _ _ _ _ m Hd). run. split; [done|]. exists [SendBool done true].
    split; [|done]. simpl. by rewrite <- app_assoc.
  - rewrite (send_nil _ _ _ _ Hd). split; [done|]. exists [].
    split; [|done]. simpl. by rewrite app_nil_r.
Qed.

Lemma AutoRedial_attempts outChan done s h :
  Connection s = Some h -> attempts (post (AutoRedial outChan done s)) = attempts s.
Proof. intros Hc. by rewrite (AutoRedial_run _ _ _ h Hc). Qed.

Lemma attempts_loop_post outChan done err dials s :
  let r := attempts_loop outChan done err dials s in
  (forall c st, chans s !! c = Some st -> chans (post r) !! c = Some st) /\
  (0 <= attempts s <= 61 -> 0 <= attempts (post r) <= 61).
Proof.
  revert s. induction dials as [|d rest IH]; intros s;
    (destruct (chans s !! outChan) as [[n [|]]|] eqn:Ho;
     [ rewrite (attempts_loop_closed _ _ _ _ _ n Ho); by split
     | | rewrite (attempts_loop_stuck _ _ _ _ _ Ho); by split ]).
  - rewrite (attempts_loop_waiting _ _ _ _ n Ho). cbn [post]. split; [done|].
    intros Ha. simpl. pose proof (reset_above_60_bounds (attempts s)). lia.
  - destruct d as [h|e].
    + destruct (attempts_loop_connected_any outChan done err h rest s n Ho) as [Hp _].
      cbv zeta. rewrite Hp. split.
      * intros c st Hc. by apply (AutoRedial_keeps _ _ _ h).
      * intros Ha.
        rewrite (AutoRedial_attempts outChan done (mkState (Some h) _ (chans s)) h eq_refl).
        simpl.
        pose proof (reset_above_60_bounds (attempts s)). lia.
    + rewrite (attempts_loop_refused _ _ _ _ _ _ n Ho). cbn [after post].
      destruct (IH (mkState None ((reset_above_60 (attempts s) + 1) mod 256) (chans s)))
        as [IH1 IH2].
      split; [exact IH1|]. intros Ha. apply IH2. simpl.
      destruct (failed_turn_counter (attempts s) Ha) as [-> ?]. lia.
Qed.

Lemma loop_trace_closes_nothing outChan done err a t :
  loop_trace outChan done err a t -> Forall closes_nothing t.
Proof.
  induction 1 as [a|a|a e t _ IH|a h c2 c3 tail Ht].
  - constructor.
  - repeat constructor.
  - repeat (constructor; [by simpl|]). exact IH.
  - repeat (constructor; [by simpl|]).
    destruct Ht as [-> | ->]; repeat constructor.
Qed.

Lemma loop_trace_counts outChan done err a t :
  loop_trace outChan done err a t ->
  length (sleeps t) = length (sent_on outChan t) /\
  (length (dial_calls t) <= length (sent_on outChan t) <= S (length (dial_calls t)))%nat.
Proof.
  induction 1 as [a|a|a e t _ IH|a h c2 c3 tail Ht].
  - simpl. lia.
  - simpl. rewrite decide_True by done. simpl. lia.
  - rewrite sleeps_app, sent_on_app, dial_calls_app, !length_app.
    simpl. rewrite decide_True by done. simpl. lia.
  - rewrite sleeps_app, sent_on_app, dial_calls_app, !length_app.
    simpl. rewrite decide_True by done.
    destruct Ht as [-> | ->]; simpl; lia.
Qed.

Lemma attempts_loop_dials_prefix outChan done err dials s :
  dial_calls (out (attempts_loop outChan done err dials s)) `prefix_of` dials.
Proof.
  revert s. induction dials as [|d rest IH]; intros s;
    (destruct (chans s !! outChan) as [[n [|]]|] eqn:Ho;
     [ rewrite (attempts_loop_closed _ _ _ _ _ n Ho); apply prefix_nil
     | | rewrite (attempts_loop_stuck _ _ _ _ _ Ho); apply prefix_nil ]).
  - by rewrite (attempts_loop_waiting _ _ _ _ n Ho).
  - destruct d as [h|e].
    + destruct (attempts_loop_connected_any outChan done err h rest s n Ho)
        as (_ & tail & -> & Ht).
      rewrite (AutoRedial_run outChan done (mkState (Some h) _ (chans s)) h eq_refl).
      cbn [out]. rewrite !dial_calls_app.
      assert (dial_calls tail = []) as ->.
      { destruct (chans _ !! done) as [[? [|]]|]; cbn [chan_closed] in Ht;
          destruct Ht as [_ ->]; reflexivity. }
      simpl. apply prefix_cons, prefix_nil.
    + rewrite (attempts_loop_refused _ _ _ _ _ _ n Ho). cbn [after out].
      rewrite dial_calls_app. simpl. apply prefix_cons, IH.
Qed.

(** X3: the uint8 counter never overflows: a run of the watcher that
    starts with the counter within 0 to 61 ends with the counter within 0 to
    61, whatever is received, whatever the dials return and whatever the
    state of the channels; and the counter is within 0 to 61 right after
    each failed dial of a streak. *)
Theorem X3_counter_stays_within_61 outChan done received dials s :
  0 <= attempts s <= 61 ->
  0 <= attempts (post (AutoRedial_goroutine outChan done received dials s)) <= 61 /\
  forall es : list string, 0 <= attempts (after_failures s es) <= 61.
Proof.
  intros Ha. split.
  - destruct received as [[e|]|]; cbn [AutoRedial_goroutine]; try done.
    by apply attempts_loop_post.
  - intros es. rewrite attempts_after_failures. by apply counter_after_range.
Qed.

Lemma X3_counter_stays_within_61_witness :
  0 <= attempts (post (AutoRedial_goroutine 0%nat 1%nat (Some (Some e320))
                         (refused 200 ++ [amqp.Connected 8%nat] ++ refused 5) demo)) <= 61.
Proof.
  assert (Ha : 0 <= attempts demo <= 61) by (simpl; lia).
  exact (proj1 (X3_counter_stays_within_61 0%nat 1%nat (Some (Some e320))
                  (refused 200 ++ [amqp.Connected 8%nat] ++ refused 5) demo Ha)).
Defined.

(** X4: in every run of the retry loop each dial is preceded by its own
    send of the error and its own wait: there are as many waits as sends
    on outChan, and the sends are as many as the dials or one more (the
    goroutine stopped between a send and its dial).  The dials made are a
    prefix of the outcomes on offer: none is made after the first
    success. *)
Theorem X4_one_send_and_wait_per_dial outChan done err dials s :
  let t := out (attempts_loop outChan done err dials s) in
  length (sleeps t) = length (sent_on outChan t) /\
  (length (dial_calls t) <= length (sent_on outChan t) <= S (length (dial_calls t)))%nat /\
  dial_calls t `prefix_of` dials /\
  forall (es : list string) h rest,
    dials = map amqp.Refused es ++ amqp.Connected h :: rest ->
    dial_calls t `prefix_of` map amqp.Refused es ++ [amqp.Connected h].
Proof.
  cbv zeta.
  destruct (loop_trace_counts outChan done err (attempts s) _
              (attempts_loop_trace outChan done err dials s)) as [H1 H2].
  split_and!; try done; try lia.
  - apply attempts_loop_dials_prefix.
  - intros es h rest ->.
    destruct (chans s !! outChan) as [[n [|]]|] eqn:Ho.
    + rewrite (attempts_loop_closed _ _ _ _ _ n Ho). apply prefix_nil.
    + rewrite (attempts_loop_failures _ _ _ _ _ _ n Ho). cbn [after out].
      rewrite dial_calls_app, dial_calls_failed_turns. apply prefix_app.
      assert (Ho' : chans (after_failures s es) !! outChan = Some (mkChan n false))
        by (by rewrite chans_after_failures).
      destruct (attempts_loop_connected_any outChan done err h rest _ n Ho')
        as (_ & tail & Hout & Ht).
      rewrite Hout.
      rewrite (AutoRedial_run outChan done (mkState (Some h) _ _) h eq_refl).
      cbn [out]. rewrite !dial_calls_app.
      assert (dial_calls tail = []) as ->.
      { destruct (chans _ !! done) as [[? [|]]|]; cbn [chan_closed] in Ht;
          destruct Ht as [_ ->]; reflexivity. }
      simpl. done.
    + rewrite (attempts_loop_stuck _ _ _ _ _ Ho). apply prefix_nil.
Qed.

Lemma X4_one_send_and_wait_per_dial_witness :
  dial_calls (out (attempts_loop 0%nat 1%nat (Some e320)
                     (map amqp.Refused ["a"] ++ amqp.Connected 8%nat :: refused 2) demo))
  `prefix_of` map amqp.Refused ["a"] ++ [amqp.Connected 8%nat].
Proof.
  exact (proj2 (proj2 (proj2
    (X4_one_send_and_wait_per_dial 0%nat 1%nat (Some e320)
       (map amqp.Refused ["a"] ++ amqp.Connected 8%nat :: refused 2) demo)))
    ["a"] 8%nat (refused 2) eq_refl).
Defined.

(** X5: the watcher does not dial before the error is taken on outChan:
    with a nil outChan it blocks at once, with a closed outChan it panics at
    once; in both cases nothing is sent, no dial is made and the connection
    is left as it is. *)
Theorem X5_no_dial_without_outChan outChan done (e : utils.Error) dials s :
  (chans s !! outChan = None ->
   AutoRedial_goroutine outChan done (Some (Some e)) dials s = mkRun Blocked s []) /\
  (forall n, chans s !! outChan = Some (mkChan n true) ->
   AutoRedial_goroutine outChan done (Some (Some e)) dials s = mkRun Panic s []).
Proof.
  cbn [AutoRedial_goroutine]. split.
  - apply attempts_loop_stuck.
  - intros n. apply attempts_loop_closed.
Qed.

Lemma X5_no_dial_without_outChan_witness :
  AutoRedial_goroutine 5%nat 1%nat (Some (Some e320)) (refused 2) demo
    = mkRun Blocked demo [] /\
  AutoRedial_goroutine 0%nat 1%nat (Some (Some e320)) (refused 2)
      (with_chans (<[0%nat := mkChan 0 true]> demo_chans) demo)
    = mkRun Panic (with_chans (<[0%nat := mkChan 0 true]> demo_chans) demo) [].
Proof.
  split.
  - exact (proj1 (X5_no_dial_without_outChan 5%nat 1%nat e320 (refused 2) demo) eq_refl).
  - exact (proj2 (X5_no_dial_without_outChan 0%nat 1%nat e320 (refused 2)
                    (with_chans (<[0%nat := mkChan 0 true]> demo_chans) demo))
             0%nat eq_refl).
Defined.

(** X6: when done has been closed, a cycle that ends with a successful dial
    still reconnects and re-arms: the connection is the new one and the new
    watcher has been started, as the last action; only then the send on done
    panics, and no signal is sent. *)
Theorem X6_closed_done_panics_after_rearm outChan done err (es : list string)
    h rest s n m :
  chans s !! outChan = Some (mkChan n false) ->
  chans s !! done = Some (mkChan m true) ->
  let r := attempts_loop outChan done err
             (map amqp.Refused es ++ amqp.Connected h :: rest) s in
  res r = Panic /\
  Connection (post r) = Some h /\
  dial_calls (out r) = map amqp.Refused es ++ [amqp.Connected h] /\
  signals_on done (out r) = [] /\
  exists errChan,
    chans s !! errChan = None /\
    last (out r) = Some (Go (AutoRedial_watcher errChan outChan done)).
Proof.
  intros Ho Hd r. subst r.
  rewrite (attempts_loop_failures _ _ _ _ _ _ n Ho).
  assert (Ho' : chans (after_failures s es) !! outChan = Some (mkChan n false))
    by (by rewrite chans_after_failures).
  destruct (attempts_loop_connected_any outChan done err h rest _ n Ho')
    as (Hp & tail & Hout & Ht).
  cbv zeta in Hp, Hout, Ht. rewrite chans_after_failures in Hp, Hout, Ht.
  set (s1 := mkState (Some h) _ (chans s)) in *.
  assert (Hd1 : chans (post (AutoRedial outChan done s1)) !! done = Some (mkChan m true))
    by (by apply (AutoRedial_keeps _ _ _ h)).
  rewrite Hd1 in Ht. cbn [chan_closed] in Ht. destruct Ht as [Hres ->].
  destruct (AutoRedial_fresh outChan done s1 h eq_refl)
    as (errChan & amqpErr & H2 & _ & _ & Hr).
  rewrite Hr in Hp, Hout. cbn [post out] in Hp, Hout.
  cbn [after res post out]. rewrite Hres, Hp, Hout.
  split_and!; try done.
  - rewrite !dial_calls_app, dial_calls_failed_turns. reflexivity.
  - rewrite !signals_on_app, signals_on_failed_turns. reflexivity.
  - exists errChan. split; [done|].
    rewrite app_nil_r, !last_app. reflexivity.
Qed.

Lemma X6_closed_done_panics_after_rearm_witness :
  res (attempts_loop 0%nat 1%nat (Some e320)
         (map amqp.Refused ["a"] ++ [amqp.Connected 8%nat])
         (with_chans (<[1%nat := mkChan 0 true]> demo_chans) demo)) = Panic.
Proof.
  exact (proj1 (X6_closed_done_panics_after_rearm 0%nat 1%nat (Some e320) ["a"] 8%nat []
                  (with_chans (<[1%nat := mkChan 0 true]> demo_chans) demo)
                  0%nat 0%nat eq_refl eq_refl)).
Defined.

(** X7: the watcher never closes a channel and never changes the state of
    a channel that exists when it starts: outChan, done and every other
    channel are after the run as they were before, whatever is received and
    whatever the dials return. *)
Theorem X7_watcher_closes_no_channel outChan done received dials s :
  let r := AutoRedial_goroutine outChan done received dials s in
  Forall closes_nothing (out r) /\
  forall c st, chans s !! c = Some st -> chans (post r) !! c = Some st.
Proof.
  destruct received as [[e|]|]; cbn [AutoRedial_goroutine].
  - split.
    + apply (loop_trace_closes_nothing outChan done (Some e) (attempts s)).
      apply attempts_loop_trace.
    + apply attempts_loop_post.
  - split; [constructor|done].
  - split; [constructor|done].
Qed.

Lemma X7_watcher_closes_no_channel_witness :
  chans (post (AutoRedial_goroutine 0%nat 1%nat (Some (Some e320))
                 (refused 2 ++ [amqp.Connected 8%nat]) demo)) !! 1%nat
  = Some (mkChan 0 false).
Proof.
  exact (proj2 (X7_watcher_closes_no_channel 0%nat 1%nat (Some (Some e320))
                  (refused 2 ++ [amqp.Connected 8%nat]) demo)
           1%nat (mkChan 0 false) eq_refl).
Defined.

(** ** Arming and bridging *)


(** X8: on a dialed connection AutoRedial returns after making two new,
    distinct, unbuffered channels (the bridge gets the capacity of the
    unbuffered errChan2), subscribing the bridge to the close event of the
    current connection and starting exactly two goroutines: the listener
    from the bridge to errChan2 and the watcher on errChan2 with the
    caller's outChan and done.  The connection, the counter and the
    channels that exist are left as they are. *)
Theorem X8_AutoRedial_arms_one_watch outChan done s h :
  Connection s = Some h ->
  let r := AutoRedial outChan done s in
  res r = Done tt /\
  Connection (post r) = Some h /\
  attempts (post r) = attempts s /\
  (forall c st, chans s !! c = Some st -> chans (post r) !! c = Some st) /\
  exists errChan2 amqpErr,
    errChan2 <> amqpErr /\
    chans s !! errChan2 = None /\ chans s !! amqpErr = None /\
    chans (post r) !! errChan2 = Some (mkChan 0 false) /\
    chans (post r) !! amqpErr = Some (mkChan 0 false) /\
    out r = [MakeChan errChan2 0; MakeChan amqpErr 0; Subscribe h amqpErr;
             Go (NotifyClose_listener amqpErr errChan2);
             Go (AutoRedial_watcher errChan2 outChan done)] /\
    spawned (out r) = [NotifyClose_listener amqpErr errChan2;
                       AutoRedial_watcher errChan2 outChan done].
Proof.
  intros Hc r. subst r.
  assert (Hk : forall c st, chans s !! c = Some st ->
                 chans (post (AutoRedial outChan done s)) !! c = Some st)
    by (intros c st; by apply (AutoRedial_keeps _ _ _ h)).
  destruct (AutoRedial_fresh outChan done s h Hc)
    as (errChan2 & amqpErr & H2 & H3 & Hne & Hr).
  rewrite Hr in Hk |- *. cbn [res post out] in Hk |- *.
  split_and!; try done.
  exists errChan2, amqpErr. split_and!; try done.
  - simpl. rewrite lookup_insert_ne by done. by rewrite lookup_insert_eq.
  - simpl. by rewrite lookup_insert_eq.
Qed.

Lemma X8_AutoRedial_arms_one_watch_witness :
  res (AutoRedial 0%nat 1%nat demo) = Done tt /\
  attempts (post (AutoRedial 0%nat 1%nat demo)) = attempts demo.
Proof.
  destruct (X8_AutoRedial_arms_one_watch 0%nat 1%nat demo 7%nat eq_refl)
    as (H1 & _ & H3 & _).
  split; [exact H1 | exact H3].
Defined.



(** X10: the listener of NotifyClose on a channel c that somebody else has
    closed panics as soon as it has an event to pass on or the native
    stream ends (a send on, or a second close of, a closed channel), having
    sent nothing; on a nil c it blocks for ever on the first event, and
    panics when the stream ends without one. *)
Theorem X10_listener_on_closed_channel c events closed s :
  (forall n, chans s !! c = Some (mkChan n true) ->
     events <> [] \/ closed = true ->
     NotifyClose_goroutine c events closed s = mkRun Panic s []) /\
  (chans s !! c = None ->
     (events <> [] -> NotifyClose_goroutine c events closed s = mkRun Blocked s []) /\
     (events = [] -> closed = true ->
        NotifyClose_goroutine c events closed s = mkRun Panic s [])).
Proof.
  unfold NotifyClose_goroutine. split.
  - intros n Hc Hev. destruct events as [|ev rest].
    + destruct Hev as [ ? | -> ]; [done|]. cbn [listener_loop]. run.
      unfold close_chan. run. rewrite Hc. cbn [chan_closed]. by run.
    + cbn [listener_loop]. unfold send_err. run. by rewrite (send_closed _ _ _ _ n Hc).
  - intros Hc. split.
    + intros Hev. destruct events as [|ev rest]; [done|].
      cbn [listener_loop]. unfold send_err. run. by rewrite (send_nil _ _ _ _ Hc).
    + intros -> ->. cbn [listener_loop]. run. unfold close_chan. run.
      rewrite Hc. by run.
Qed.

Lemma X10_listener_on_closed_channel_witness :
  NotifyClose_goroutine 0%nat [] true
      (with_chans (<[0%nat := mkChan 0 true]> demo_chans) demo)
    = mkRun Panic (with_chans (<[0%nat := mkChan 0 true]> demo_chans) demo) [] /\
  NotifyClose_goroutine 5%nat [None] true demo = mkRun Blocked demo [] /\
  NotifyClose_goroutine 5%nat [] true demo = mkRun Panic demo [].
Proof.
  assert (Hc : chans (with_chans (<[0%nat := mkChan 0 true]> demo_chans) demo) !! 0%nat
               = Some (mkChan 0 true)) by reflexivity.
  split_and!.
  - apply (proj1 (X10_listener_on_closed_channel 0%nat [] true
                    (with_chans (<[0%nat := mkChan 0 true]> demo_chans) demo))
             0%nat Hc).
    by right.
  - apply (proj1 (proj2 (X10_listener_on_closed_channel 5%nat [None] true demo) eq_refl)).
    discriminate.
  - exact (proj2 (proj2 (X10_listener_on_closed_channel 5%nat [] true demo) eq_refl)
             eq_refl eq_refl).
Defined.

(** X11: a close event reaches the caller translated: when the first event
    of the native stream is an error, the first action of the watcher is to
    send on outChan an error with the code, reason and flags of that native
    error, before any wait or dial; when the stream is closed without an
    event, or its first event is nil, the watcher returns without any
    action. *)
Theorem X11_close_event_end_to_end outChan done dials s :
  (forall (e : amqp.Error) rest closed n,
     chans s !! outChan = Some (mkChan n false) ->
     exists t tl,
       out (AutoRedial_goroutine outChan done
              (first_received (Some e :: rest) closed) dials s)
         = SendErr outChan (Some t) :: tl /\
       utils.Code t = amqp.Code e /\ utils.Reason t = amqp.Reason e /\
       utils.Server t = amqp.Server e /\ utils.Recover t = amqp.Recover e) /\
  AutoRedial_goroutine outChan done (first_received [] true) dials s
    = mkRun (Done tt) s [] /\
  (forall rest closed,
     AutoRedial_goroutine outChan done (first_received (None :: rest) closed) dials s
       = mkRun (Done tt) s []).
Proof.
  split_and!; [|done|done].
  intros e rest closed n Ho. cbn [first_received translate AutoRedial_goroutine].
  rewrite (attempts_loop_head _ _ _ _ _ n Ho). cbn [after out app].
  eexists _, _. split; [reflexivity|]. by split_and!.
Qed.

Lemma X11_close_event_end_to_end_witness :
  exists t tl,
    out (AutoRedial_goroutine 0%nat 1%nat
           (first_received [Some (amqp.mkError 504 "CHANNEL_ERROR" false true)] false)
           (refused 1) demo)
      = SendErr 0%nat (Some t) :: tl /\
    utils.Code t = 504.
Proof.
  destruct (proj1 (X11_close_event_end_to_end 0%nat 1%nat (refused 1) demo)
              (amqp.mkError 504 "CHANNEL_ERROR" false true) [] false 0%nat eq_refl)
    as (t & tl & H1 & H2 & _).
  exists t, tl. split; [exact H1 | exact H2].
Defined.

(** ** Dial and Delivery *)

(** X12: Dial calls the dial function exactly once and never waits or
    retries; a refusal comes back as the error the dial function gave, a
    success as no error with the connection stored; the Conn it leaves has
    its counter at 0 and no channel is made or changed. *)
Theorem X12_Dial_dials_once r cs :
  dial_calls (out (Dial r cs)) = [r] /\
  sleeps (out (Dial r cs)) = [] /\
  length (out (Dial r cs)) = 1%nat /\
  attempts (post (Dial r cs)) = 0 /\
  chans (post (Dial r cs)) = cs /\
  (forall e, r = amqp.Refused e -> res (Dial r cs) = Done (Some e)) /\
  (forall h, r = amqp.Connected h ->
     res (Dial r cs) = Done None /\ Connection (post (Dial r cs)) = Some h).
Proof.
  destruct r; split_and!; try done;
    intros x H; try discriminate; inversion H; subst; done.
Qed.

Lemma X12_Dial_dials_once_witness :
  res (Dial (amqp.Refused "no route to host") demo_chans) = Done (Some "no route to host") /\
  Connection (post (Dial (amqp.Connected 7%nat) demo_chans)) = Some 7%nat.
Proof.
  destruct (X12_Dial_dials_once (amqp.Refused "no route to host") demo_chans)
    as (_ & _ & _ & _ & _ & H6 & _).
  destruct (X12_Dial_dials_once (amqp.Connected 7%nat) demo_chans)
    as (_ & _ & _ & _ & _ & _ & H7).
  split.
  - exact (H6 "no route to host" eq_refl).
  - exact (proj2 (H7 7%nat eq_refl)).
Defined.

(** X13: the acknowledgement methods of a Delivery built by NewDelivery
    reach the channel it was built with, with the tag it was built with:
    Ack passes multiple on, Nack passes multiple and requeue on, and
    Reject is Nack with multiple false, for every channel. *)
Theorem X13_Delivery_acks_use_its_tag (Option Channel Reply : Type)
    (Channel_Ack : Channel -> Z -> bool -> Reply)
    (Channel_Nack : Channel -> Z -> bool -> bool -> Reply)
    (ch : Channel) (data : list Byte.byte) (tag : Z) (messageId : string)
    (hdrs : Option) (contentType : string) (multiple requeue : bool) :
  let d := server.NewDelivery Option Channel ch data tag messageId hdrs contentType in
  server.Ack _ _ _ Channel_Ack d multiple = Channel_Ack ch tag multiple /\
  server.Nack _ _ _ Channel_Nack d multiple requeue = Channel_Nack ch tag multiple requeue /\
  server.Reject _ _ _ Channel_Nack d requeue = Channel_Nack ch tag false requeue /\
  server.Reject _ _ _ Channel_Nack d requeue = server.Nack _ _ _ Channel_Nack d false requeue.
Proof. by cbv. Qed.
